(** * Python enumerations with ctypes storage: a shallow embedding

    The development follows [enumeration.py]: the metaclass
    [EnumerationType] (class creation, the two lookup tables, the
    class-level lookups and iteration) and the base class [Enumeration]
    (the [name] property, [repr] and [from_param]).

    Python objects are modelled as far as the program uses them: integers
    are [Z] (Python integers are unbounded), names are [string], a [dict]
    is a [gmap], an exception is a constructor of [exn], and a method
    that can raise returns a [result]. *)

From Stdlib Require Import ZArith.
From Stdlib.Strings Require Import Ascii Byte.
From stdpp Require Import gmap strings list fin_maps sorting pretty.

Local Open Scope Z_scope.

(** ** Exceptions and results *)

Module Py.

Inductive exn := TypeError | KeyError | ValueError | AttributeError.

Inductive result (A : Type) :=
  | Ok (a : A)
  | Raise (e : exn).
Arguments Ok {A} a.
Arguments Raise {A} e.

#[global] Instance result_bind : MBind result := λ A B k r,
  match r with
  | Ok a => k a
  | Raise e => Raise e
  end.

(** An attribute that the class does not define reads as [None] (the
    metaclass [__getattr__] answers [None] for every name that starts
    with an underscore); using [None] as a container raises
    [TypeError]. *)
Definition container {A} (attr : option A) : result A :=
  match attr with
  | Some d => Ok d
  | None => Raise TypeError
  end.

(** The argument of a class-level lookup: an integer or a string. *)
Inductive pyval :=
  | PInt (z : Z)
  | PStr (s : string).

(** [isinstance(value, str) and value.startswith("_")] *)
Definition is_private (value : pyval) : bool :=
  match value with
  | PStr s => String.prefix "_" s
  | PInt _ => false
  end.

(** [value in d] and [d[value]] for a dict whose keys are integers: a
    string is equal to no integer, so it is never found. *)
Definition dict_get {V} (d : gmap Z V) (value : pyval) : option V :=
  match value with
  | PInt z => d !! z
  | PStr _ => None
  end.

End Py.

(** ** The integer types of ctypes

    A simple integer ctype is a width in bytes and a signedness; an
    instance is a buffer of that many bytes in the byte order of the
    host.  Conversion of a Python integer does no overflow checking: the
    low-order bytes are stored. *)

Module ctypes.

Class Platform := {
  long_size : nat;       (* sizeof(long): 4 or 8 on the usual targets *)
  big_endian : bool      (* byte order of the host *)
}.

Record ctype := { sizeof : nat; signed : bool }.

Definition c_uint32 := {| sizeof := 4; signed := false |}.
Definition c_long `{Platform} := {| sizeof := long_size; signed := true |}.

Definition bits (t : ctype) : Z := 8 * Z.of_nat (sizeof t).

Definition representable (t : ctype) (v : Z) : Prop :=
  if signed t then - 2 ^ (bits t - 1) ≤ v < 2 ^ (bits t - 1)
  else 0 ≤ v < 2 ^ bits t.

Definition byte_of_Z (z : Z) : byte :=
  default x00 (Byte.of_N (Z.to_N (z `mod` 256))).

Definition Z_of_byte (b : byte) : Z := Z.of_N (Byte.to_N b).

(** Little-endian bytes of the [n] low-order bytes of [z]. *)
Fixpoint to_le (n : nat) (z : Z) : list byte :=
  match n with
  | O => []
  | S n => byte_of_Z z :: to_le n (z `div` 256)
  end.

Fixpoint of_le (buf : list byte) : Z :=
  match buf with
  | [] => 0
  | b :: buf => Z_of_byte b + 256 * of_le buf
  end.

Section codec.
Context `{Platform}.

Definition host_order (buf : list byte) : list byte :=
  if big_endian then reverse buf else buf.

(** The buffer of [t(v)]. *)
Definition pack (t : ctype) (v : Z) : list byte :=
  host_order (to_le (sizeof t) v).

(** The [value] of an instance of [t] with buffer [buf]. *)
Definition unpack (t : ctype) (buf : list byte) : Z :=
  let u := of_le (host_order buf) in
  if signed t && (2 ^ (bits t - 1) <=? u) then u - 2 ^ bits t else u.
End codec.

End ctypes.

(** ** The metaclass *)

Module EnumerationType.
Import Py ctypes.

(** An entry of [_values_]: a string, or a tuple whose first item is the
    name.  [MTuple n rest] is the tuple [(n, *rest)]: [MTuple n [v]] is the
    pair [(n, v)], [MTuple n []] is [(n,)]. *)
Inductive member :=
  | MStr (name : string)
  | MTuple (name : string) (rest : list Z).

(** A value of [_namesByValue]: a string, or a tuple of strings once a
    second name has been given the same value. *)
Inductive names :=
  | NStr (s : string)
  | NTuple (t : list string).

(** The names of an entry, as a list. *)
Definition names_list (val : names) : list string :=
  match val with
  | NStr s => [s]
  | NTuple t => t
  end.

(** The attributes of a class body that the metaclass reads.  [None] is
    an attribute the body does not define.  For [_values_] the body can
    also give [None] itself: [d_values] is then [Some None], and
    [Some (Some vs)] when the body gives the list [vs]. *)
Record ClassDict := {
  d_ctype : option ctype;
  d_start_value : option Z;
  d_values : option (option (list member))
}.

(** A direct subclass of [Enumeration].  [cls_id] is the identity of the
    class object: classes are compared by identity.  [values_in_dict] is
    ["_values_" in cls.__dict__]; [_values_] is what [cls._values_] reads,
    [None] also when the body does not define it. *)
Record EnumClass := {
  cls_id : nat;
  __name__ : string;
  base_ctype : ctype;
  values_in_dict : bool;
  _start_value_ : option Z;
  _values_ : option (list member);
  _namesByValue : option (gmap Z names);
  _valuesByName : option (gmap string Z)
}.

Section metaclass.
Context `{Platform}.

(** [__new__]: the ctype of the class is [_ctype_] when the body gives
    one, and [c_long] otherwise.  (A body that gives [c_long] itself is
    built on [c_long] through [Enumeration]: the same storage.) *)
Definition __new__ (id : nat) (name : string) (dict : ClassDict) : EnumClass :=
  let ctype :=
    match d_ctype dict with
    | Some t => t
    | None => c_long
    end in
  {| cls_id := id; __name__ := name; base_ctype := ctype;
     values_in_dict := bool_decide (is_Some (d_values dict));
     _start_value_ := d_start_value dict;
     _values_ := match d_values dict with
                 | Some given => given
                 | None => None
                 end;
     _namesByValue := None; _valuesByName := None |}.

(** The state of the loop over [_values_]. *)
Record loop := {
  namesByValue : gmap Z names;
  valuesByName : gmap string Z;
  curValue : Z
}.

Definition loop_body (st : loop) (v : member) : loop :=
  let '(curName, curValue) :=
    match v with
    | MTuple name rest =>
        (name, match rest with
               | [v1] => v1                (* len(v) == 2 *)
               | _ => curValue st
               end)
    | MStr name => (name, curValue st)
    end in
  let namesByValue :=
    match namesByValue st !! curValue with
    | Some val =>
        match val with
        | NStr s => <[curValue := NTuple [s; curName]]> (namesByValue st)
        | NTuple t => <[curValue := NTuple (t ++ [curName])]> (namesByValue st)
        end
    | None => <[curValue := NStr curName]> (namesByValue st)
    end in
  {| namesByValue := namesByValue;
     valuesByName := <[curName := curValue]> (valuesByName st);
     curValue := curValue + 1 |}.

Definition loop_init (start : option Z) : loop :=
  let start_value :=
    match start with
    | Some s => s
    | None => 0
    end in
  {| namesByValue := ∅; valuesByName := ∅; curValue := start_value |}.

Definition run_loop (start : option Z) (vs : list member) : loop :=
  fold_left loop_body vs (loop_init start).

(** [__init__]: fill the lookup tables when [_values_] is there. *)
Definition __init__ (cls : EnumClass) : EnumClass :=
  match _values_ cls with
  | Some vs =>
      let st := run_loop (_start_value_ cls) vs in
      {| cls_id := cls_id cls; __name__ := __name__ cls;
         base_ctype := base_ctype cls;
         values_in_dict := values_in_dict cls;
         _start_value_ := _start_value_ cls; _values_ := _values_ cls;
         _namesByValue := Some (namesByValue st);
         _valuesByName := Some (valuesByName st) |}
  | None => cls
  end.

(** The class statement [class name(Enumeration): dict]. *)
Definition class (id : nat) (name : string) (dict : ClassDict) : EnumClass :=
  __init__ (__new__ id name dict).

(** [__contains__] *)
Definition __contains__ (cls : EnumClass) (value : pyval)
    : result (option names) :=
  if negb (is_private value) then
    d ← container (_namesByValue cls);
    match dict_get d value with
    | Some val => Ok (Some val)
    | None => Ok None
    end
  else Ok None.

(** [__getitem__] *)
Definition __getitem__ (cls : EnumClass) (values : pyval)
    : result (option names) :=
  d ← container (_namesByValue cls);
  match dict_get d values with
  | Some val => Ok (Some val)
  | None => Ok None
  end.

(** [__getattr__]: only called for a name that the class and its bases
    do not define. *)
Definition __getattr__ (cls : EnumClass) (name : string)
    : result (option Z) :=
  if negb (String.prefix "_" name) && values_in_dict cls then
    d ← container (_valuesByName cls);
    match d !! name with
    | Some v => Ok (Some v)
    | None => Ok None
    end
  else Ok None.

(** [sorted(d.keys())] *)
Definition sorted_keys {V} (d : gmap Z V) : list Z :=
  merge_sort Z.le (map_to_list d).*1.

(** The pairs that one key of [_namesByValue] yields. *)
Definition yield_names (d : gmap Z names) (value : Z) : list (string * Z) :=
  match d !! value with
  | Some (NStr name) => [(name, value)]
  | Some (NTuple name) => (λ n, (n, value)) <$> name
  | None => []
  end.

(** [__iter__]: the generator, as the list of what it yields.  Without
    the table, [keys] is asked of [None], which raises
    [AttributeError]. *)
Definition __iter__ (cls : EnumClass) : result (list (string * Z)) :=
  match _namesByValue cls with
  | Some d => Ok (sorted_keys d ≫= yield_names d)
  | None => Raise AttributeError
  end.

(** [__repr__] *)
Definition __repr__ (cls : EnumClass) : string :=
  "<Enumeration " +:+ __name__ cls +:+ ">".
End metaclass.

End EnumerationType.


(** ** The base class *)

Module Enumeration.
Import Py ctypes EnumerationType.

(** An instance: its class and its buffer. *)
Record instance := { __class__ : EnumClass; buffer : list byte }.

(** What [from_param] can be given: a reference to an object, or an
    integer. *)
Inductive param :=
  | Ref (l : nat)
  | Int (v : Z).

(** [repr] of a string.  A string is the list of its code points, all
    below 256.  The quote is the single one, or the double one when the
    string holds a single quote and no double one; the quote and the
    backslash are escaped, tab, newline and carriage return are written
    with their letter, and the other code points that do not print
    (below 32, 127 to 160, and 173) as [\x] and two hexadecimal digits. *)
Definition double_quote : ascii := ascii_of_nat 34.

Definition holds (c : ascii) (s : string) : bool :=
  existsb (Ascii.eqb c) (String.list_ascii_of_string s).

Definition repr_quote (s : string) : ascii :=
  if holds "'" s && negb (holds double_quote s) then double_quote else "'"%char.

Definition hex_digit (n : nat) : ascii :=
  if (n <? 10)%nat then ascii_of_nat (48 + n) else ascii_of_nat (87 + n).

Definition repr_char (quote c : ascii) : string :=
  let n := nat_of_ascii c in
  if Ascii.eqb c quote || Ascii.eqb c "\"%char then String "\" (String c "")
  else if (n =? 9)%nat then "\t"
  else if (n =? 10)%nat then "\n"
  else if (n =? 13)%nat then "\r"
  else if (n <? 32)%nat || ((126 <? n)%nat && (n <? 161)%nat) || (n =? 173)%nat
  then String "\" (String "x" (String (hex_digit (n / 16))
                                  (String (hex_digit (n mod 16)) "")))
  else String c "".

Definition repr_str (s : string) : string :=
  let quote := repr_quote s in
  String quote
    (String.concat "" (repr_char quote <$> String.list_ascii_of_string s)
     +:+ String quote "").

(** [%s] of a name entry.  A string prints as itself, a tuple as the
    [repr] of its items between parentheses, with a comma after a single
    item. *)
Definition str_names (val : names) : string :=
  match val with
  | NStr s => s
  | NTuple [s] => "(" +:+ repr_str s +:+ ",)"
  | NTuple t => "(" +:+ String.concat ", " (repr_str <$> t) +:+ ")"
  end.

Section instances.
Context `{Platform}.

(** [self.value] *)
Definition value (self : instance) : Z :=
  unpack (base_ctype (__class__ self)) (buffer self).

(** The call [cls(v)]; [cls()] is [cls(0)]. *)
Definition new (cls : EnumClass) (v : Z) : instance :=
  {| __class__ := cls; buffer := pack (base_ctype cls) v |}.

(** [f.write(a)], as in the example of the module: the bytes of the
    buffer. *)
Definition write (a : instance) : list byte := buffer a.

(** [f.readinto(b)] when the file holds [data]: the bytes read replace
    the start of the buffer. *)
Definition readinto (b : instance) (data : list byte) : instance :=
  {| __class__ := __class__ b;
     buffer := take (length (buffer b)) data ++ drop (length data) (buffer b) |}.

(** [__getattr__]: only called for an attribute that the instance does
    not have, as [name] is.  The builtin [dict] has no [__getattr__], so
    the other branch raises [AttributeError]. *)
Definition __getattr__ (self : instance) (key : string) : result names :=
  if String.eqb key "name" then
    d ← container (_namesByValue (__class__ self));
    match d !! value self with
    | Some val => Ok val
    | None => Raise KeyError
    end
  else Raise AttributeError.

(** [__repr__] *)
Definition __repr__ (self : instance) : result string :=
  name ← __getattr__ self "name";
  Ok ("<value " +:+ str_names name +:+ "=" +:+ pretty (value self)
      +:+ " of " +:+ EnumerationType.__repr__ (__class__ self) +:+ ">").

(** The instances of enumeration classes that are alive, by address.  A
    reference that is not in the heap is an object of another kind. *)
Definition alloc (h : gmap nat instance) (o : instance)
    : nat * gmap nat instance :=
  let l := fresh (dom h) in (l, <[l := o]> h).

(** [from_param] *)
Definition from_param (cls : EnumClass) (p : param) (h : gmap nat instance)
    : result (nat * gmap nat instance) :=
  match p with
  | Ref l =>
      match h !! l with
      | Some o =>                              (* isinstance(param, Enumeration) *)
          if decide (cls_id (__class__ o) = cls_id cls) then Ok (l, h)
          else Raise ValueError
      | None => Raise TypeError                (* cls(param), not an integer *)
      end
  | Int v => Ok (alloc h (new cls v))
  end.
End instances.

End Enumeration.

Import Py ctypes EnumerationType.

(** ** Classes used in examples *)

Definition LP64 : Platform := {| long_size := 8; big_endian := false |}.

(** The class of the module's documentation. *)
Definition MH_FILETYPE : EnumClass :=
  @class LP64 1 "MH_FILETYPE"
    {| d_ctype := Some c_uint32; d_start_value := None;
       d_values := Some (Some [MStr "MH_UNKNOWN"; MTuple "MH_EXECUTE" [2];
                               MStr "MH_FVMLIB"]) |}.

(** A class statement whose body gives [_values_]. *)
Definition enum `{Platform} (id : nat) (name : string) (ct : option ctype)
    (start : option Z) (vs : list member) : EnumClass :=
  class id name {| d_ctype := ct; d_start_value := start;
                   d_values := Some (Some vs) |}.

(** ** The assignment as the specification words it

    A running counter starts at the start value; a bare name takes the
    counter, a pair its explicit value, and the counter continues from
    the value just assigned plus one.  (A tuple that is not a pair gives
    no value and counts as a bare name.) *)

Definition member_name (v : member) : string :=
  match v with
  | MStr name => name
  | MTuple name _ => name
  end.

Definition member_value (counter : Z) (v : member) : Z :=
  match v with
  | MTuple _ [explicit] => explicit
  | _ => counter
  end.

Fixpoint assigned (counter : Z) (vs : list member) : list (string * Z) :=
  match vs with
  | [] => []
  | v :: vs =>
      let x := member_value counter v in
      (member_name v, x) :: assigned (x + 1) vs
  end.

(** The names that the declarations give the value [x], in declaration
    order. *)
Definition aliases (start : option Z) (vs : list member) (x : Z) : list string :=
  (filter (λ p, p.2 = x) (assigned (default 0 start) vs)).*1.

(** The names stored under [x] in a [_namesByValue] table. *)
Definition names_of (d : gmap Z names) (x : Z) : list string :=
  match d !! x with
  | Some val => names_list val
  | None => []
  end.

(** The integer that a ctype stores for [v]: the one of its range that
    is congruent to [v] modulo two to the number of its bits. *)
Definition truncate (t : ctype) (v : Z) : Z :=
  let u := v `mod` 2 ^ bits t in
  if signed t && (2 ^ (bits t - 1) <=? u) then u - 2 ^ bits t else u.

(** The table of values is the declarations written in order, a later
    one over an earlier one. *)
Definition write_pairs (d : gmap string Z) (l : list (string * Z)) : gmap string Z :=
  foldl (λ d p, <[p.1 := p.2]> d) d l.

(** ** The operator [in]

    [value in cls] calls [__contains__] of the metaclass and takes the
    truth value of what it returns: [None], an empty string and an empty
    tuple are false. *)

Definition truth (r : option names) : bool :=
  match r with
  | None => false
  | Some (NStr s) => negb (String.eqb s "")
  | Some (NTuple t) => negb (bool_decide (t = []))
  end.

Definition operator_in `{Platform} (value : pyval) (cls : EnumClass) : result bool :=
  r ← __contains__ cls value;
  Ok (truth r).

(** ** The loop of [__init__] *)

Section loop_facts.

Lemma loop_body_eq st v :
  loop_body st v =
  let x := member_value (curValue st) v in
  {| namesByValue :=
       match namesByValue st !! x with
       | Some (NStr s) => <[x := NTuple [s; member_name v]]> (namesByValue st)
       | Some (NTuple t) => <[x := NTuple (t ++ [member_name v])]> (namesByValue st)
       | None => <[x := NStr (member_name v)]> (namesByValue st)
       end;
     valuesByName := <[member_name v := x]> (valuesByName st);
     curValue := x + 1 |}.
Proof. by destruct v as [n|n [|e []]]. Qed.

Lemma loop_body_curValue st v :
  curValue (loop_body st v) = member_value (curValue st) v + 1.
Proof. by rewrite loop_body_eq. Qed.

Lemma loop_body_valuesByName st v :
  valuesByName (loop_body st v)
  = <[member_name v := member_value (curValue st) v]> (valuesByName st).
Proof. by rewrite loop_body_eq. Qed.

(** One iteration appends the name to the names of its value and leaves
    the other values alone. *)
Lemma loop_body_names_of st v x :
  names_of (namesByValue (loop_body st v)) x
  = names_of (namesByValue st) x
    ++ (if decide (member_value (curValue st) v = x) then [member_name v] else []).
Proof.
  rewrite loop_body_eq. cbn. unfold names_of.
  set (y := member_value (curValue st) v).
  destruct (decide (y = x)) as [->|Hne].
  - destruct (namesByValue st !! x) as [[s|t]|] eqn:E;
      rewrite lookup_insert_eq; by rewrite ?E.
  - destruct (namesByValue st !! y) as [[s|t]|];
      rewrite lookup_insert_ne by done; by rewrite app_nil_r.
Qed.

Lemma fold_loop_names_of vs st x :
  names_of (namesByValue (fold_left loop_body vs st)) x
  = names_of (namesByValue st) x
    ++ (filter (λ p, p.2 = x) (assigned (curValue st) vs)).*1.
Proof.
  revert st. induction vs as [|v vs IH]; intros st; cbn.
  - by rewrite app_nil_r.
  - rewrite IH, loop_body_names_of, loop_body_curValue, <- app_assoc.
    f_equal. by case_decide.
Qed.

Lemma fold_loop_valuesByName vs st :
  valuesByName (fold_left loop_body vs st)
  = write_pairs (valuesByName st) (assigned (curValue st) vs).
Proof.
  revert st. induction vs as [|v vs IH]; intros st; cbn; [done|].
  by rewrite IH, loop_body_valuesByName, loop_body_curValue.
Qed.

Lemma write_pairs_notin d l n :
  n ∉ l.*1 → write_pairs d l !! n = d !! n.
Proof.
  revert d. induction l as [|[m x] l IH]; intros d Hn; cbn; [done|].
  cbn in Hn. apply not_elem_of_cons in Hn as [Hne Hn].
  unfold write_pairs in IH. rewrite IH by done. cbn. by rewrite lookup_insert_ne.
Qed.

(** A name reads the value of its last declaration. *)
Lemma write_pairs_last d l1 l2 n x :
  n ∉ l2.*1 → write_pairs d (l1 ++ (n, x) :: l2) !! n = Some x.
Proof.
  intros Hn. unfold write_pairs. rewrite foldl_app. cbn.
  fold (write_pairs (<[n := x]> (foldl (λ d p, <[p.1 := p.2]> d) d l1)) l2).
  rewrite write_pairs_notin by done. apply lookup_insert_eq.
Qed.

(** What a name reads was declared, or was there before. *)
Lemma write_pairs_lookup d l n x :
  write_pairs d l !! n = Some x → (n, x) ∈ l ∨ d !! n = Some x.
Proof.
  revert d. induction l as [|[m y] l IH]; intros d; cbn; [by right|].
  intros Hl. apply IH in Hl as [Hl|Hl]; [left; by right|].
  cbn in Hl. destruct (decide (m = n)) as [->|Hne].
  - rewrite lookup_insert_eq in Hl. injection Hl as ->. left. by left.
  - rewrite lookup_insert_ne in Hl by done. by right.
Qed.

End loop_facts.

(** ** The tables of a class *)

Section class_facts.
Context `{Platform}.

Lemma enum_namesByValue id name ct start vs :
  _namesByValue (enum id name ct start vs)
  = Some (namesByValue (run_loop start vs)).
Proof. done. Qed.

Lemma enum_valuesByName id name ct start vs :
  _valuesByName (enum id name ct start vs)
  = Some (valuesByName (run_loop start vs)).
Proof. done. Qed.

Lemma loop_init_curValue start : curValue (loop_init start) = default 0 start.
Proof. by destruct start. Qed.

Lemma run_loop_snoc start vs v :
  run_loop start (vs ++ [v]) = loop_body (run_loop start vs) v.
Proof. unfold run_loop. by rewrite fold_left_app. Qed.

Lemma run_loop_names_of start vs x :
  names_of (namesByValue (run_loop start vs)) x = aliases start vs x.
Proof.
  unfold run_loop. rewrite fold_loop_names_of.
  by rewrite loop_init_curValue.
Qed.

Lemma run_loop_valuesByName start vs :
  valuesByName (run_loop start vs)
  = write_pairs ∅ (assigned (default 0 start) vs).
Proof.
  unfold run_loop. rewrite fold_loop_valuesByName.
  by rewrite loop_init_curValue.
Qed.

(** An entry of the table is never an empty tuple. *)
Lemma run_loop_entry start vs x val :
  namesByValue (run_loop start vs) !! x = Some val →
  names_list val = aliases start vs x ∧ (0 < length (names_list val))%nat.
Proof.
  intros Hx. pose proof (run_loop_names_of start vs x) as Hn.
  unfold names_of in Hn. rewrite Hx in Hn. split; [done|].
  revert Hx. clear Hn. revert x val.
  induction vs as [|v vs IH] using rev_ind; intros x val.
  - destruct start; cbn; by rewrite lookup_empty.
  - rewrite run_loop_snoc, loop_body_eq. cbn.
    set (st := run_loop start vs) in *.
    set (y := member_value (curValue st) v).
    destruct (decide (y = x)) as [->|Hne].
    + destruct (namesByValue st !! x) as [[s|t]|];
        rewrite lookup_insert_eq; intros [= <-]; cbn;
        rewrite ?length_app; cbn; lia.
    + destruct (namesByValue st !! y) as [[s|t]|];
        rewrite lookup_insert_ne by done; apply IH.
Qed.

(** A tuple entry has at least two names. *)
Lemma run_loop_tuple start vs x t :
  namesByValue (run_loop start vs) !! x = Some (NTuple t) → (2 ≤ length t)%nat.
Proof.
  revert x t. induction vs as [|v vs IH] using rev_ind; intros x t.
  - destruct start; cbn; by rewrite lookup_empty.
  - rewrite run_loop_snoc, loop_body_eq. cbn.
    set (st := run_loop start vs) in *.
    set (y := member_value (curValue st) v).
    destruct (decide (y = x)) as [->|Hne].
    + destruct (namesByValue st !! x) as [[s|t']|] eqn:E;
        rewrite lookup_insert_eq; intros [= <-]; cbn; [lia|].
      apply IH in E. rewrite length_app. lia.
    + destruct (namesByValue st !! y) as [[s|t']|];
        rewrite lookup_insert_ne by done; apply IH.
Qed.

(** The entry of a value, from the names declared with it. *)
Lemma run_loop_entry_of start vs x :
  namesByValue (run_loop start vs) !! x
  = match aliases start vs x with
    | [] => None
    | [n] => Some (NStr n)
    | t => Some (NTuple t)
    end.
Proof.
  destruct (namesByValue (run_loop start vs) !! x) as [val|] eqn:E.
  - pose proof E as [Hl Hlen]%run_loop_entry. rewrite <- Hl.
    destruct val as [s|t]; cbn; [done|].
    apply run_loop_tuple in E. by destruct t as [|n [|m t]]; cbn in *; try lia.
  - pose proof (run_loop_names_of start vs x) as Hn.
    unfold names_of in Hn. by rewrite E in Hn; rewrite <- Hn.
Qed.

End class_facts.

(** ** Definition-time value assignment *)

(** C1.  The walk over the declarations keeps a counter that starts at
    the start value, 0 when none is given.  Whatever came before, a bare
    name is assigned the counter and a pair [(name, explicit)] its
    explicit value, in both tables, and the counter is then the assigned
    value plus one.  The tables of the class are those of the walk over
    the whole list, and hold what the assignment in the words of the
    specification gives.  With the default start, [A, B, C] are given
    0, 1, 2, and [A, (B, 2), C] are given 0, 2, 3. *)
Theorem value_assignment `{Platform} :
  (∀ start, curValue (loop_init start) = default 0 start) ∧
  (∀ start pre name,
     let st := run_loop start pre in
     let st' := run_loop start (pre ++ [MStr name]) in
     valuesByName st' !! name = Some (curValue st)
     ∧ name ∈ names_of (namesByValue st') (curValue st)
     ∧ curValue st' = curValue st + 1) ∧
  (∀ start pre name explicit,
     let st' := run_loop start (pre ++ [MTuple name [explicit]]) in
     valuesByName st' !! name = Some explicit
     ∧ name ∈ names_of (namesByValue st') explicit
     ∧ curValue st' = explicit + 1) ∧
  (∀ id name ct start vs,
     let st := run_loop start vs in
     _namesByValue (enum id name ct start vs) = Some (namesByValue st)
     ∧ _valuesByName (enum id name ct start vs) = Some (valuesByName st)
     ∧ valuesByName st = write_pairs ∅ (assigned (default 0 start) vs)
     ∧ ∀ x, names_of (namesByValue st) x = aliases start vs x) ∧
  (let E := enum 7 "E" None None [MStr "A"; MStr "B"; MStr "C"] in
   __iter__ E = Ok [("A", 0); ("B", 1); ("C", 2)]
   ∧ EnumerationType.__getattr__ E "A" = Ok (Some 0)
   ∧ EnumerationType.__getattr__ E "B" = Ok (Some 1)
   ∧ EnumerationType.__getattr__ E "C" = Ok (Some 2)) ∧
  (let E := enum 7 "E" None None [MStr "A"; MTuple "B" [2]; MStr "C"] in
   __iter__ E = Ok [("A", 0); ("B", 2); ("C", 3)]
   ∧ EnumerationType.__getattr__ E "A" = Ok (Some 0)
   ∧ EnumerationType.__getattr__ E "B" = Ok (Some 2)
   ∧ EnumerationType.__getattr__ E "C" = Ok (Some 3)).
Proof.
  split; [exact loop_init_curValue|].
  split; [|split; [|split]].
  - intros start pre name st st'. subst st st'. rewrite run_loop_snoc.
    rewrite loop_body_names_of, loop_body_valuesByName, loop_body_curValue.
    cbn. rewrite lookup_insert_eq, decide_True by done.
    split_and!; [done| |done]. apply elem_of_app. right. by left.
  - intros start pre name explicit st'. subst st'. rewrite run_loop_snoc.
    rewrite loop_body_names_of, loop_body_valuesByName, loop_body_curValue.
    cbn. rewrite lookup_insert_eq, decide_True by done.
    split_and!; [done| |done]. apply elem_of_app. right. by left.
  - intros id name ct start vs st. split_and!; [done..| |].
    + apply run_loop_valuesByName.
    + apply run_loop_names_of.
  - split; vm_compute; done.
Qed.

(** ** Declared values and declared names *)

Section declared.
Context `{Platform}.

Lemma elem_of_aliases start vs n x :
  n ∈ aliases start vs x ↔ (n, x) ∈ assigned (default 0 start) vs.
Proof.
  unfold aliases. rewrite list_elem_of_fmap. split.
  - intros [[m y] [-> [Hy ?]%list_elem_of_filter]]. cbn in Hy. by subst.
  - intros Hin. exists (n, x). split; [done|]. by apply list_elem_of_filter.
Qed.

Lemma aliases_declared start vs x :
  x ∈ (assigned (default 0 start) vs).*2 → aliases start vs x ≠ [].
Proof.
  intros [[n y] [-> Hin]]%list_elem_of_fmap. cbn.
  apply elem_of_aliases in Hin. intros E. rewrite E in Hin.
  by apply not_elem_of_nil in Hin.
Qed.

Lemma aliases_undeclared start vs x :
  x ∉ (assigned (default 0 start) vs).*2 → aliases start vs x = [].
Proof.
  intros Hx. destruct (aliases start vs x) as [|n l] eqn:E; [done|].
  exfalso. apply Hx. apply list_elem_of_fmap. exists (n, x). split; [done|].
  apply elem_of_aliases. rewrite E. by left.
Qed.

Lemma run_loop_declared start vs x :
  x ∈ (assigned (default 0 start) vs).*2 →
  ∃ val, namesByValue (run_loop start vs) !! x = Some val
         ∧ names_list val = aliases start vs x.
Proof.
  intros Hx%aliases_declared.
  pose proof (run_loop_names_of start vs x) as Hn. unfold names_of in Hn.
  destruct (namesByValue (run_loop start vs) !! x) as [val|]; [|done].
  by exists val.
Qed.

Lemma run_loop_undeclared start vs x :
  x ∉ (assigned (default 0 start) vs).*2 →
  namesByValue (run_loop start vs) !! x = None.
Proof.
  intros Hx%aliases_undeclared.
  destruct (namesByValue (run_loop start vs) !! x) as [val|] eqn:E; [|done].
  apply run_loop_entry in E as [E Hlen]. rewrite E, Hx in Hlen. cbn in Hlen. lia.
Qed.

(** The last declaration of a declared name. *)
Lemma last_declaration (l : list (string * Z)) n :
  n ∈ l.*1 → ∃ l1 x l2, l = l1 ++ (n, x) :: l2 ∧ n ∉ l2.*1.
Proof.
  induction l as [|[m y] l IH]; cbn; intros Hin.
  - by apply not_elem_of_nil in Hin.
  - destruct (decide (n ∈ l.*1)) as [Hl|Hl].
    + destruct (IH Hl) as (l1 & x & l2 & -> & Hn).
      by exists ((m, y) :: l1), x, l2.
    + apply elem_of_cons in Hin as [->|]; [|done].
      by exists [], y, l.
Qed.

End declared.

(** ** Table consistency *)

(** C9.  For every member list, duplicates of names and of values
    included, both tables are built; every name of [_valuesByName] is
    among the names that [_namesByValue] keeps under the value of that
    name, and every key of [_namesByValue] has at least one name. *)
Theorem table_consistency `{Platform} id name ct start vs :
  ∃ nbv vbn,
    _namesByValue (enum id name ct start vs) = Some nbv
    ∧ _valuesByName (enum id name ct start vs) = Some vbn
    ∧ (∀ n x, vbn !! n = Some x →
         ∃ val, nbv !! x = Some val ∧ n ∈ names_list val)
    ∧ (∀ x val, nbv !! x = Some val → (1 ≤ length (names_list val))%nat).
Proof.
  eexists _, _. split; [apply enum_namesByValue|].
  split; [apply enum_valuesByName|]. split.
  - intros n x Hn. rewrite run_loop_valuesByName in Hn.
    apply write_pairs_lookup in Hn as [Hn|Hn]; [|by rewrite lookup_empty in Hn].
    destruct (run_loop_declared start vs x) as (val & Hval & Hl).
    { apply list_elem_of_fmap. by exists (n, x). }
    exists val. split; [done|]. rewrite Hl. by apply elem_of_aliases.
  - intros x val Hx. apply run_loop_entry in Hx as [_ Hx]. lia.
Qed.

(** ** Lookups on the class *)

(** C5, as stated, at a class whose body gives no [_values_]: the
    membership lookup of a string with the reserved prefix returns
    [None], and indexing with it raises [TypeError]. *)
Lemma getitem_contains_without_values :
  let E := @class LP64 1 "E" {| d_ctype := None; d_start_value := None;
                                d_values := None |} in
  is_private (PStr "_x") = true
  ∧ __contains__ E (PStr "_x") = Ok None
  ∧ __getitem__ E (PStr "_x") = Raise TypeError.
Proof. by vm_compute. Qed.

(** C5, as amended.  On a class whose body gives a list of members,
    indexing and the membership lookup give the same result for every
    integer and every string.  A declared integer gives the entry of its
    names, an undeclared one gives [None], and so does every string with
    the reserved prefix.  On every class the two agree for every input
    that is not a string with the reserved prefix. *)
Theorem getitem_contains `{Platform} id name ct start vs :
  let E := enum id name ct start vs in
  let declared := assigned (default 0 start) vs in
  (∀ value, __getitem__ E value = __contains__ E value)
  ∧ (∀ x, x ∈ declared.*2 →
       ∃ val, __contains__ E (PInt x) = Ok (Some val)
              ∧ names_list val = aliases start vs x)
  ∧ (∀ x, x ∉ declared.*2 → __contains__ E (PInt x) = Ok None)
  ∧ (∀ s, String.prefix "_" s = true →
       __contains__ E (PStr s) = Ok None ∧ __getitem__ E (PStr s) = Ok None)
  ∧ (∀ dict value, is_private value = false →
       __getitem__ (class id name dict) value
       = __contains__ (class id name dict) value).
Proof.
  intros E declared. split_and!.
  - intros [x|s]; unfold __getitem__, __contains__; cbn; [done|].
    by destruct (String.prefix "_" s).
  - intros x (val & Hval & Hl)%run_loop_declared. exists val.
    unfold __contains__. cbn. by rewrite Hval.
  - intros x Hx%run_loop_undeclared. unfold __contains__. cbn. by rewrite Hx.
  - intros s Hs. unfold __getitem__, __contains__. cbn. by rewrite Hs.
  - intros dict value Hv. unfold __getitem__, __contains__. by rewrite Hv.
Qed.

(** C6, as stated, at a class whose body gives [_values_ = None]: no
    table is built, [_values_] is in the dictionary of the class, and the
    attribute lookup of a name without the reserved prefix raises
    [TypeError]. *)
Lemma attribute_lookup_values_none :
  let E := @class LP64 1 "E" {| d_ctype := None; d_start_value := None;
                                d_values := Some None |} in
  _valuesByName E = None
  ∧ values_in_dict E = true
  ∧ String.prefix "_" "A" = false
  ∧ EnumerationType.__getattr__ E "A" = Raise TypeError.
Proof. by vm_compute. Qed.

(** C6, as amended.  On a class whose body gives a list of members, the
    attribute lookup of a declared name without the reserved prefix
    returns its value, the one of its last declaration, and of any other
    name without the prefix it returns [None].  On a class whose body
    gives a list of members or no [_values_] at all it raises for no
    name, and without [_values_] it returns [None] for every name.  On
    every class it returns [None] for a name with the reserved prefix. *)
Theorem attribute_lookup `{Platform} id name ct start vs :
  let E := enum id name ct start vs in
  let declared := assigned (default 0 start) vs in
  (∀ attr, String.prefix "_" attr = false → attr ∈ declared.*1 →
     ∃ l1 x l2, EnumerationType.__getattr__ E attr = Ok (Some x)
                ∧ declared = l1 ++ (attr, x) :: l2 ∧ attr ∉ l2.*1)
  ∧ (∀ attr, String.prefix "_" attr = false → attr ∉ declared.*1 →
       EnumerationType.__getattr__ E attr = Ok None)
  ∧ (∀ dict attr, String.prefix "_" attr = true →
       EnumerationType.__getattr__ (class id name dict) attr = Ok None)
  ∧ (∀ dict attr, d_values dict ≠ Some None →
       ∃ r, EnumerationType.__getattr__ (class id name dict) attr = Ok r)
  ∧ (∀ dict attr, d_values dict = None →
       EnumerationType.__getattr__ (class id name dict) attr = Ok None).
Proof.
  intros E declared. split_and!.
  - intros attr Hp (l1 & x & l2 & Hd & Hn)%last_declaration.
    exists l1, x, l2. split_and!; [|done..].
    unfold EnumerationType.__getattr__. rewrite Hp. cbn.
    rewrite run_loop_valuesByName. fold declared. rewrite Hd.
    by rewrite write_pairs_last.
  - intros attr Hp Hn. unfold EnumerationType.__getattr__. rewrite Hp. cbn.
    rewrite run_loop_valuesByName, write_pairs_notin by done.
    by rewrite lookup_empty.
  - intros dict attr Hp. unfold EnumerationType.__getattr__. by rewrite Hp.
  - intros [ct' start' [[vs'|]|]] attr Hd; [| done |];
      unfold EnumerationType.__getattr__; cbn.
    + destruct (negb _); cbn; [|by eexists].
      destruct (valuesByName _ !! attr); by eexists.
    + rewrite andb_false_r. by eexists.
  - intros [ct' start' vs'] attr Hd. cbn in Hd. subst vs'.
    unfold EnumerationType.__getattr__. cbn. by rewrite andb_false_r.
Qed.

(** ** Iteration *)

Section iteration.
Context `{Platform}.

Lemma elem_of_sorted_keys {V} (d : gmap Z V) x :
  x ∈ sorted_keys d ↔ is_Some (d !! x).
Proof.
  unfold sorted_keys. rewrite merge_sort_Permutation, list_elem_of_fmap. split.
  - intros [[y v] [-> Hin%elem_of_map_to_list]]. by exists v.
  - intros [v Hv]. exists (x, v). by rewrite elem_of_map_to_list.
Qed.

Lemma NoDup_sorted_keys {V} (d : gmap Z V) : NoDup (sorted_keys d).
Proof.
  unfold sorted_keys. rewrite merge_sort_Permutation.
  apply NoDup_fst_map_to_list.
Qed.

Lemma sorted_keys_le {V} (d : gmap Z V) : StronglySorted Z.le (sorted_keys d).
Proof. apply StronglySorted_merge_sort; apply _. Qed.

(** Distinct keys in ascending order are in strictly ascending order. *)
Lemma StronglySorted_le_lt (ks : list Z) :
  NoDup ks → StronglySorted Z.le ks → StronglySorted Z.lt ks.
Proof.
  induction 2 as [|k ks Hs IH Hk]; [constructor|].
  apply NoDup_cons in H0 as [Hnk Hnd]. constructor; [by apply IH|].
  rewrite Forall_forall in Hk |- *. intros y Hy.
  pose proof (Hk y Hy). assert (k ≠ y) by (intros ->; done). lia.
Qed.

Lemma yield_names_eq d x :
  yield_names d x = (λ n, (n, x)) <$> names_of d x.
Proof. unfold yield_names, names_of. by destruct (d !! x) as [[s|t]|]. Qed.

(** The values of the pairs yielded for ascending keys are ascending. *)
Lemma bind_sorted (f : Z → list string) (ks : list Z) :
  StronglySorted Z.le ks →
  StronglySorted Z.le (ks ≫= (λ x, (λ n, (n, x)) <$> f x)).*2.
Proof.
  induction 1 as [|k ks Hs IH Hk]; cbn; [constructor|].
  rewrite fmap_app. apply StronglySorted_app_2; [| |done].
  - intros x1 x2 [[n y] [-> [m [[= -> ->] _]]%list_elem_of_fmap]]%list_elem_of_fmap.
    intros [[n' y] [-> [z [Hin Hz]]%list_elem_of_bind]]%list_elem_of_fmap.
    apply list_elem_of_fmap in Hin as [m' [[= -> ->] _]]. cbn.
    rewrite Forall_forall in Hk. by apply Hk.
  - rewrite <- list_fmap_compose. cbn.
    induction (f k) as [|n l IHl]; cbn; constructor; [done|].
    apply Forall_forall. intros y [m [-> _]]%list_elem_of_fmap. done.
Qed.

Lemma filter_pairs_same (l : list string) (x : Z) :
  (filter (λ p, p.2 = x) ((λ n, (n, x)) <$> l)).*1 = l.
Proof.
  induction l as [|n l IH]; [done|].
  rewrite fmap_cons, filter_cons_True by done.
  rewrite fmap_cons. cbn. by rewrite IH.
Qed.

Lemma filter_pairs_other (l : list string) (k x : Z) :
  k ≠ x → filter (λ p, p.2 = x) ((λ n, (n, k)) <$> l) = [].
Proof.
  intros Hne. induction l as [|n l IH]; [done|].
  by rewrite fmap_cons, filter_cons_False by done.
Qed.

(** The pairs of one value, among those yielded for distinct keys. *)
Lemma bind_filter (f : Z → list string) (ks : list Z) x :
  NoDup ks →
  (filter (λ p, p.2 = x) (ks ≫= (λ y, (λ n, (n, y)) <$> f y))).*1
  = if decide (x ∈ ks) then f x else [].
Proof.
  induction 1 as [|k ks Hk Hnd IH]; cbn; [done|].
  rewrite filter_app, fmap_app, IH.
  destruct (decide (k = x)) as [->|Hne].
  - rewrite (decide_False (P := x ∈ ks)) by done.
    rewrite (decide_True (P := x ∈ x :: ks)) by left.
    by rewrite app_nil_r, filter_pairs_same.
  - rewrite filter_pairs_other by done. cbn. destruct (decide (x ∈ ks)).
    + by rewrite decide_True by (by right).
    + rewrite decide_False; [done|]. by intros [->|]%elem_of_cons.
Qed.

End iteration.

(** What iteration yields, value by value. *)
Lemma iter_by_value `{Platform} id name ct start vs :
  ∃ pairs,
    __iter__ (enum id name ct start vs) = Ok pairs
    ∧ ∀ x, (filter (λ p, p.2 = x) pairs).*1 = aliases start vs x.
Proof.
  set (d := namesByValue (run_loop start vs)).
  exists (sorted_keys d ≫= yield_names d). split; [done|]. intros x.
  rewrite (list_bind_ext (yield_names d)
             (λ x, (λ n, (n, x)) <$> aliases start vs x) _ (sorted_keys d));
    [|intros y; rewrite yield_names_eq; unfold d; by rewrite run_loop_names_of
     |done].
  rewrite bind_filter by apply NoDup_sorted_keys.
  case_decide as Hx; [done|]. symmetry. apply aliases_undeclared.
  intros (val & Hval & _)%run_loop_declared. apply Hx.
  apply elem_of_sorted_keys. by exists val.
Qed.

(** C3.  Iteration yields the pairs of the declared values taken in
    strictly ascending order, and for each value one pair per name given
    that value, in declaration order, before the pairs of the next value.
    So the values of the pairs yielded are ascending, and the pairs of
    one value are its names in declaration order.  The class with
    UNKNOWN, (EXECUTE, 2), FVMLIB yields exactly (UNKNOWN, 0),
    (EXECUTE, 2), (FVMLIB, 3). *)
Theorem iteration_order `{Platform} id name ct start vs :
  let E := enum id name ct start vs in
  (∃ ks pairs,
     __iter__ E = Ok pairs
     ∧ pairs = ks ≫= (λ x, (λ n, (n, x)) <$> aliases start vs x)
     ∧ StronglySorted Z.lt ks
     ∧ (∀ x, x ∈ ks ↔ x ∈ (assigned (default 0 start) vs).*2)
     ∧ StronglySorted Z.le pairs.*2
     ∧ (∀ x, (filter (λ p, p.2 = x) pairs).*1 = aliases start vs x))
  ∧ __iter__ (enum id name ct None
                [MStr "UNKNOWN"; MTuple "EXECUTE" [2]; MStr "FVMLIB"])
    = Ok [("UNKNOWN", 0); ("EXECUTE", 2); ("FVMLIB", 3)]
  ∧ __iter__ (enum id name ct None
                [MTuple "C" [5]; MStr "D"; MTuple "A" [1]; MTuple "B" [5]])
    = Ok [("A", 1); ("C", 5); ("B", 5); ("D", 6)].
Proof.
  intros E. split; [|by vm_compute].
  set (d := namesByValue (run_loop start vs)).
  assert (Hdom : ∀ x, x ∈ sorted_keys d ↔ x ∈ (assigned (default 0 start) vs).*2).
  { intros x. rewrite elem_of_sorted_keys. split.
    - intros [val Hval].
      destruct (decide (x ∈ (assigned (default 0 start) vs).*2)) as [|Hn]; [done|].
      apply run_loop_undeclared in Hn. unfold d in Hval. congruence.
    - intros (val & Hval & _)%run_loop_declared. by exists val. }
  assert (Heq : sorted_keys d ≫= yield_names d
                = sorted_keys d ≫= (λ x, (λ n, (n, x)) <$> aliases start vs x)).
  { apply list_bind_ext; [|done]. intros x.
    rewrite yield_names_eq. unfold d. by rewrite run_loop_names_of. }
  exists (sorted_keys d), (sorted_keys d ≫= yield_names d). split_and!.
  - done.
  - done.
  - apply StronglySorted_le_lt; [apply NoDup_sorted_keys|apply sorted_keys_le].
  - done.
  - rewrite Heq. apply bind_sorted, sorted_keys_le.
  - intros x. rewrite Heq, bind_filter by apply NoDup_sorted_keys.
    case_decide as Hx; [done|]. symmetry. apply aliases_undeclared.
    by rewrite <- Hdom.
Qed.

(** ** Aliases *)

Lemma assigned_pair counter vs n x :
  MTuple n [x] ∈ vs → (n, x) ∈ assigned counter vs.
Proof.
  revert counter. induction vs as [|v vs IH]; intros counter Hin.
  - by apply not_elem_of_nil in Hin.
  - apply elem_of_cons in Hin as [<-|Hin]; cbn; [by left|].
    right. by apply IH.
Qed.

(** C4, as stated, at a definition that declares one of the two names
    again: A and B are declared with the explicit value 1, iteration
    yields both under 1, and A reads 5, the value of its last
    declaration. *)
Lemma alias_declared_again :
  let vs := [MTuple "A" [1]; MTuple "B" [1]; MTuple "A" [5]] in
  let E := @enum LP64 1 "E" None None vs in
  "A" ≠ "B" ∧ MTuple "A" [1] ∈ vs ∧ MTuple "B" [1] ∈ vs
  ∧ __iter__ E = Ok [("A", 1); ("B", 1); ("A", 5)]
  ∧ (∃ vbn, _valuesByName E = Some vbn
            ∧ vbn !! "A" = Some 5 ∧ vbn !! "A" ≠ Some 1)
  ∧ EnumerationType.__getattr__ E "A" = Ok (Some 5)
  ∧ EnumerationType.__getattr__ E "B" = Ok (Some 1).
Proof.
  cbv zeta. split_and!; try by vm_compute.
  - apply elem_of_cons. by left.
  - apply elem_of_cons. right. apply elem_of_cons. by left.
  - eexists. split; [reflexivity|]. by vm_compute.
Qed.

(** C4, as amended.  When two distinct names are declared with the same
    explicit value, iteration yields both under that value, the pairs of
    the value being its names in declaration order; each of the two names
    reads in [_valuesByName] the value of its last declaration, which is
    the shared value when every declaration of the name gives it. *)
Theorem alias_support `{Platform} id name ct start vs a b x :
  a ≠ b → MTuple a [x] ∈ vs → MTuple b [x] ∈ vs →
  let E := enum id name ct start vs in
  let declared := assigned (default 0 start) vs in
  ∃ pairs vbn,
    __iter__ E = Ok pairs ∧ _valuesByName E = Some vbn
    ∧ (a, x) ∈ pairs ∧ (b, x) ∈ pairs
    ∧ (filter (λ p, p.2 = x) pairs).*1 = aliases start vs x
    ∧ a ∈ aliases start vs x ∧ b ∈ aliases start vs x
    ∧ (∀ n, n ∈ [a; b] →
         ∃ l1 y l2, vbn !! n = Some y
                    ∧ declared = l1 ++ (n, y) :: l2 ∧ n ∉ l2.*1)
    ∧ (∀ n, n ∈ [a; b] → (∀ y, (n, y) ∈ declared → y = x) →
         vbn !! n = Some x).
Proof.
  intros Hab Ha Hb E declared.
  apply (assigned_pair (default 0 start)) in Ha, Hb. fold declared in Ha, Hb.
  destruct (iter_by_value id name ct start vs)
    as (pairs & Hiter & Hfilter).
  assert (Hmem : ∀ n, (n, x) ∈ declared → (n, x) ∈ pairs).
  { intros n Hn%elem_of_aliases. rewrite <- Hfilter in Hn.
    apply list_elem_of_fmap in Hn as [[m y] [-> [Hy Hin]%list_elem_of_filter]].
    cbn in Hy. by subst. }
  assert (Hlast : ∀ n, n ∈ [a; b] →
            ∃ l1 y l2, valuesByName (run_loop start vs) !! n = Some y
                       ∧ declared = l1 ++ (n, y) :: l2 ∧ n ∉ l2.*1).
  { intros n Hn.
    assert (n ∈ declared.*1) as (l1 & y & l2 & Hd & Hl)%last_declaration.
    { apply list_elem_of_fmap. exists (n, x). split; [done|].
      apply elem_of_cons in Hn as [->|Hn]; [done|].
      apply list_elem_of_singleton in Hn as ->. done. }
    exists l1, y, l2. split_and!; [|done..].
    rewrite run_loop_valuesByName. fold declared. rewrite Hd.
    by apply write_pairs_last. }
  exists pairs, (valuesByName (run_loop start vs)). split_and!; try done.
  - by apply Hmem.
  - by apply Hmem.
  - by apply elem_of_aliases.
  - by apply elem_of_aliases.
  - intros n Hn Hall. destruct (Hlast n Hn) as (l1 & y & l2 & Hy & Hd & _).
    rewrite Hy. f_equal. apply Hall. rewrite Hd.
    apply elem_of_app. right. by left.
Qed.

Lemma alias_support_witness :
  let vs := [MStr "Z"; MTuple "A" [1]; MTuple "B" [1]] in
  ∃ pairs vbn,
    __iter__ (@enum LP64 1 "E" None None vs) = Ok pairs
    ∧ _valuesByName (@enum LP64 1 "E" None None vs) = Some vbn
    ∧ ("A", 1) ∈ pairs ∧ ("B", 1) ∈ pairs
    ∧ (filter (λ p, p.2 = 1) pairs).*1 = aliases None vs 1
    ∧ "A" ∈ aliases None vs 1 ∧ "B" ∈ aliases None vs 1
    ∧ (∀ n, n ∈ ["A"; "B"] →
         ∃ l1 y l2, vbn !! n = Some y
                    ∧ assigned 0 vs = l1 ++ (n, y) :: l2 ∧ n ∉ l2.*1)
    ∧ (∀ n, n ∈ ["A"; "B"] → (∀ y, (n, y) ∈ assigned 0 vs → y = 1) →
         vbn !! n = Some 1).
Proof.
  apply (@alias_support LP64 1 "E" None None
           [MStr "Z"; MTuple "A" [1]; MTuple "B" [1]] "A" "B" 1).
  - by vm_compute.
  - apply elem_of_cons. right. apply elem_of_cons. by left.
  - apply elem_of_cons. right. apply elem_of_cons. right.
    apply elem_of_cons. by left.
Defined.

(** ** The byte codec *)

Section codec_facts.
Context `{Platform}.

Lemma Z_of_byte_of_Z z : Z_of_byte (byte_of_Z z) = z `mod` 256.
Proof.
  unfold Z_of_byte, byte_of_Z.
  pose proof (Z.mod_pos_bound z 256 eq_refl) as Hz.
  destruct (of_N (Z.to_N (z `mod` 256))) as [b|] eqn:E; cbn.
  - apply to_of_N in E. rewrite E. lia.
  - apply of_N_None_iff in E. lia.
Qed.

Lemma length_to_le n z : length (to_le n z) = n.
Proof. revert z. induction n as [|n IH]; intros z; cbn; [done|]. by rewrite IH. Qed.

(** The bytes hold the integer modulo 256 to the number of bytes. *)
Lemma of_le_to_le n z : of_le (to_le n z) = z `mod` 2 ^ (8 * Z.of_nat n).
Proof.
  revert z. induction n as [|n IH]; intros z; cbn [to_le of_le].
  - by rewrite Z.mod_1_r.
  - rewrite Z_of_byte_of_Z, IH.
    replace (8 * Z.of_nat (S n)) with (8 + 8 * Z.of_nat n) by lia.
    rewrite Z.pow_add_r by lia. change (2 ^ 8) with 256.
    rewrite Z.rem_mul_r; [done|lia|]. apply Z.pow_pos_nonneg; lia.
Qed.

Lemma host_order_involutive buf : host_order (host_order buf) = buf.
Proof. unfold host_order. destruct big_endian; [|done]. apply reverse_involutive. Qed.

Lemma length_host_order buf : length (host_order buf) = length buf.
Proof. unfold host_order. destruct big_endian; [|done]. apply length_reverse. Qed.

Lemma length_pack t v : length (pack t v) = sizeof t.
Proof. unfold pack. by rewrite length_host_order, length_to_le. Qed.

(** What an instance holds after [t(v)]: [v] reduced to the width of
    [t]. *)
Lemma unpack_pack t v : unpack t (pack t v) = truncate t v.
Proof. unfold unpack, pack. by rewrite host_order_involutive, of_le_to_le. Qed.

Lemma unpack_pack_representable t v :
  representable t v → unpack t (pack t v) = v.
Proof.
  rewrite unpack_pack. unfold truncate, representable, bits. cbn zeta.
  destruct t as [n [|]]; cbn [signed sizeof andb]; intros Hv.
  - destruct n as [|n]; [cbn in Hv; lia|].
    set (w := 8 * Z.of_nat (S n)) in *.
    assert (Hw : 2 ^ w = 2 * 2 ^ (w - 1)).
    { rewrite <- Z.pow_succ_r by lia. f_equal. lia. }
    assert (0 < 2 ^ (w - 1)) by (apply Z.pow_pos_nonneg; lia).
    destruct (decide (0 ≤ v)).
    + rewrite Z.mod_small by lia. by rewrite (proj2 (Z.leb_gt _ _)) by lia.
    + rewrite <- (Z.mod_add v 1) by lia. rewrite Z.mod_small by lia.
      rewrite (proj2 (Z.leb_le _ _)) by lia. lia.
  - by rewrite Z.mod_small.
Qed.

End codec_facts.

(** ** Encoding and decoding *)

(** C2.  The storage of a class is the [_ctype_] of its body, [c_long]
    without one.  For every class and every integer representable in
    that storage, declared or not, the instance made from the integer
    holds it and writes as many bytes as the storage has, and a fresh
    instance of the class that reads those bytes holds the integer. *)
Theorem encode_decode_roundtrip `{Platform} id name dict v :
  let T := class id name dict in
  representable (base_ctype T) v →
  let a := Enumeration.new T v in
  let b := Enumeration.readinto (Enumeration.new T 0) (Enumeration.write a) in
  base_ctype T = default c_long (d_ctype dict)
  ∧ Enumeration.value a = v
  ∧ length (Enumeration.write a) = sizeof (base_ctype T)
  ∧ Enumeration.__class__ b = T
  ∧ Enumeration.value b = v.
Proof.
  intros T Hv a b. split_and!.
  - unfold T. by destruct dict as [[t|] sv [[vs|]|]].
  - by apply unpack_pack_representable.
  - apply length_pack.
  - done.
  - unfold b, a, Enumeration.readinto, Enumeration.write. cbn.
    rewrite !length_pack.
    rewrite take_ge by (by rewrite length_pack).
    rewrite drop_ge by (by rewrite length_pack).
    rewrite app_nil_r. by apply unpack_pack_representable.
Qed.

Lemma encode_decode_roundtrip_witness :
  let T := MH_FILETYPE in
  let a := @Enumeration.new LP64 T 4294967295 in
  let b := @Enumeration.readinto (@Enumeration.new LP64 T 0) (Enumeration.write a) in
  base_ctype T = c_uint32
  ∧ @Enumeration.value LP64 a = 4294967295
  ∧ length (Enumeration.write a) = 4%nat
  ∧ Enumeration.__class__ b = T
  ∧ @Enumeration.value LP64 b = 4294967295.
Proof.
  apply (@encode_decode_roundtrip LP64 1 "MH_FILETYPE"
           {| d_ctype := Some c_uint32; d_start_value := None;
              d_values := Some (Some [MStr "MH_UNKNOWN"; MTuple "MH_EXECUTE" [2];
                                      MStr "MH_FVMLIB"]) |} 4294967295).
  vm_compute. split; [by intros [=]|done].
Defined.

(** ** Instances *)

(** C7.  Making an instance from an integer consults no table: every
    integer gives an instance of the class, which holds the integer
    when the storage can represent it.  Reading [name] raises [KeyError]
    when the value held was never declared; when it was declared with
    one name the result is that name, and when with several the result is
    the tuple of them in declaration order, the first declared first. *)
Theorem instance_name `{Platform} id name ct start vs :
  let E := enum id name ct start vs in
  let declared := assigned (default 0 start) vs in
  (∀ v, Enumeration.__class__ (Enumeration.new E v) = E
        ∧ (representable (base_ctype E) v →
           Enumeration.value (Enumeration.new E v) = v))
  ∧ (∀ buf,
       let self := {| Enumeration.__class__ := E; Enumeration.buffer := buf |} in
       let x := Enumeration.value self in
       (x ∉ declared.*2 → Enumeration.__getattr__ self "name" = Raise KeyError)
       ∧ (∀ n, aliases start vs x = [n] →
            Enumeration.__getattr__ self "name" = Ok (NStr n))
       ∧ (∀ n m t, aliases start vs x = n :: m :: t →
            Enumeration.__getattr__ self "name" = Ok (NTuple (n :: m :: t)))
       ∧ (x ∈ declared.*2 →
            ∃ val, Enumeration.__getattr__ self "name" = Ok val
                   ∧ names_list val = aliases start vs x
                   ∧ head (names_list val) = head (aliases start vs x)))
  ∧ (let self := @Enumeration.new LP64 MH_FILETYPE 7 in
     @Enumeration.value LP64 self = 7
     ∧ @Enumeration.__getattr__ LP64 self "name" = Raise KeyError).
Proof.
  intros E declared. split_and!.
  - intros v. split; [done|]. apply unpack_pack_representable.
  - intros buf self x.
    assert (Hname : Enumeration.__getattr__ self "name"
                    = match namesByValue (run_loop start vs) !! x with
                      | Some val => Ok val
                      | None => Raise KeyError
                      end) by done.
    rewrite Hname. split_and!.
    + intros Hx%run_loop_undeclared. by rewrite Hx.
    + intros n Hn. by rewrite run_loop_entry_of, Hn.
    + intros n m t Hn. by rewrite run_loop_entry_of, Hn.
    + intros (val & Hval & Hl)%run_loop_declared. exists val.
      by rewrite Hval, Hl.
  - by vm_compute.
Qed.

(** C10.  [repr] of an instance reads [name] first, so it raises the
    same [KeyError] when the value held was never declared; it returns a
    string exactly when the value was declared, and for a value declared
    with one name the string is the documented one. *)
Theorem instance_repr `{Platform} id name ct start vs buf :
  let E := enum id name ct start vs in
  let declared := assigned (default 0 start) vs in
  let self := {| Enumeration.__class__ := E; Enumeration.buffer := buf |} in
  let x := Enumeration.value self in
  (x ∉ declared.*2 →
     Enumeration.__repr__ self = Raise KeyError
     ∧ Enumeration.__getattr__ self "name" = Raise KeyError)
  ∧ (∀ s, Enumeration.__repr__ self = Ok s → x ∈ declared.*2)
  ∧ (x ∈ declared.*2 → ∃ s, Enumeration.__repr__ self = Ok s)
  ∧ (∀ n, aliases start vs x = [n] →
       Enumeration.__repr__ self
       = Ok ("<value " +:+ n +:+ "=" +:+ pretty x
             +:+ " of " +:+ ("<Enumeration " +:+ name +:+ ">") +:+ ">"))
  ∧ @Enumeration.__repr__ LP64 (@Enumeration.new LP64 MH_FILETYPE 2)
    = Ok "<value MH_EXECUTE=2 of <Enumeration MH_FILETYPE>>"
  ∧ @Enumeration.__repr__ LP64 (@Enumeration.new LP64 MH_FILETYPE 1)
    = Raise KeyError.
Proof.
  intros E declared self x.
  assert (Hrepr : Enumeration.__repr__ self
                  = match namesByValue (run_loop start vs) !! x with
                    | Some val =>
                        Ok ("<value " +:+ Enumeration.str_names val +:+ "="
                            +:+ pretty x +:+ " of "
                            +:+ EnumerationType.__repr__ E +:+ ">")
                    | None => Raise KeyError
                    end).
  { unfold Enumeration.__repr__, Enumeration.__getattr__. cbn.
    fold x. by destruct (namesByValue (run_loop start vs) !! x). }
  assert (Hname : Enumeration.__getattr__ self "name"
                  = match namesByValue (run_loop start vs) !! x with
                    | Some val => Ok val
                    | None => Raise KeyError
                    end) by done.
  rewrite Hrepr, Hname. split_and!.
  - intros Hx%run_loop_undeclared. by rewrite Hx.
  - intros s Hs.
    destruct (decide (x ∈ declared.*2)) as [|Hx%run_loop_undeclared]; [done|].
    by rewrite Hx in Hs.
  - intros (val & Hval & _)%run_loop_declared. rewrite Hval. by eexists.
  - intros n Hn. by rewrite run_loop_entry_of, Hn.
  - by vm_compute.
  - by vm_compute.
Qed.

(** ** [from_param] *)

(** C8, as stated, at a raw integer that the storage cannot represent:
    the class of the documentation stores 32 unsigned bits, and
    [from_param] of two to the 32 gives a new instance that holds 0. *)
Lemma from_param_out_of_range :
  ∃ l o,
    @Enumeration.from_param LP64 MH_FILETYPE (Enumeration.Int 4294967296) ∅
    = Ok (l, {[l := o]})
    ∧ Enumeration.__class__ o = MH_FILETYPE
    ∧ @Enumeration.value LP64 o = 0
    ∧ @Enumeration.value LP64 o ≠ 4294967296.
Proof.
  exists 0%nat, (@Enumeration.new LP64 MH_FILETYPE 4294967296).
  split_and!; [by vm_compute..|]. vm_compute. by intros [=].
Qed.

(** C8, as amended.  Given a reference to an instance of exactly the
    class, [from_param] returns the same reference and allocates nothing;
    given an instance of another enumeration class it raises
    [ValueError]; given an integer it returns a newly allocated instance
    of the class, which holds the integer as the storage of the class
    keeps it: the integer itself when it is representable. *)
Theorem from_param_cases `{Platform} (T : EnumClass)
    (h : gmap nat Enumeration.instance) :
  (∀ l o, h !! l = Some o → cls_id (Enumeration.__class__ o) = cls_id T →
     Enumeration.from_param T (Enumeration.Ref l) h = Ok (l, h))
  ∧ (∀ l o, h !! l = Some o → cls_id (Enumeration.__class__ o) ≠ cls_id T →
       Enumeration.from_param T (Enumeration.Ref l) h = Raise ValueError)
  ∧ (∀ v, ∃ l o,
       Enumeration.from_param T (Enumeration.Int v) h = Ok (l, <[l := o]> h)
       ∧ h !! l = None
       ∧ Enumeration.__class__ o = T
       ∧ Enumeration.value o = truncate (base_ctype T) v
       ∧ (representable (base_ctype T) v → Enumeration.value o = v)).
Proof.
  split_and!.
  - intros l o Hl Hc. unfold Enumeration.from_param. rewrite Hl.
    by rewrite decide_True.
  - intros l o Hl Hc. unfold Enumeration.from_param. rewrite Hl.
    by rewrite decide_False.
  - intros v. exists (fresh (dom h)), (Enumeration.new T v). split_and!.
    + done.
    + apply not_elem_of_dom, is_fresh.
    + done.
    + apply unpack_pack.
    + apply unpack_pack_representable.
Qed.


(** ** Further properties of the tables *)

Lemma loop_body_not_pair st n rest :
  length rest ≠ 1%nat → loop_body st (MTuple n rest) = loop_body st (MStr n).
Proof. by destruct rest as [|e [|e' rest]]. Qed.

Lemma assigned_fst counter vs : (assigned counter vs).*1 = member_name <$> vs.
Proof.
  revert counter. induction vs as [|v vs IH]; intros counter; cbn; [done|].
  by rewrite IH.
Qed.

Lemma assigned_app counter vs ws :
  ∃ counter', assigned counter (vs ++ ws)
              = assigned counter vs ++ assigned counter' ws.
Proof.
  revert counter. induction vs as [|v vs IH]; intros counter; cbn.
  - by exists counter.
  - destruct (IH (member_value counter v + 1)) as [c' ->]. by exists c'.
Qed.

(** X1.  A tuple of [_values_] that is not a pair, [(name,)] or
    [(name, a, b)] say, is treated as the bare name: its items after the
    name are ignored and it is given the running counter.  Both tables
    and the iteration are those of the list with the bare name in its
    place. *)
Theorem tuple_not_pair_is_bare `{Platform} id name ct start pre post n rest :
  length rest ≠ 1%nat →
  let E := enum id name ct start (pre ++ MTuple n rest :: post) in
  let E' := enum id name ct start (pre ++ MStr n :: post) in
  _namesByValue E = _namesByValue E'
  ∧ _valuesByName E = _valuesByName E'
  ∧ __iter__ E = __iter__ E'
  ∧ ∀ attr, EnumerationType.__getattr__ E attr = EnumerationType.__getattr__ E' attr.
Proof.
  intros Hlen E E'.
  assert (Hrun : run_loop start (pre ++ MTuple n rest :: post)
                 = run_loop start (pre ++ MStr n :: post)).
  { unfold run_loop. rewrite !fold_left_app. cbn [fold_left].
    by rewrite loop_body_not_pair. }
  unfold E, E'. rewrite !enum_namesByValue, !enum_valuesByName, Hrun.
  split_and!; [done..| |].
  - unfold __iter__. by rewrite !enum_namesByValue, Hrun.
  - intros attr. unfold EnumerationType.__getattr__.
    by rewrite !enum_valuesByName, Hrun.
Qed.

Lemma tuple_not_pair_is_bare_witness :
  let E := @enum LP64 1 "E" None None [MStr "A"; MTuple "B" [7; 9]; MStr "C"] in
  let E' := @enum LP64 1 "E" None None [MStr "A"; MStr "B"; MStr "C"] in
  _namesByValue E = _namesByValue E'
  ∧ _valuesByName E = _valuesByName E'
  ∧ __iter__ E = __iter__ E'
  ∧ ∀ attr, EnumerationType.__getattr__ E attr = EnumerationType.__getattr__ E' attr.
Proof.
  apply (@tuple_not_pair_is_bare LP64 1 "E" None None
           [MStr "A"] [MStr "C"] "B" [7; 9]).
  cbn. lia.
Defined.

(** X2.  The entry of a value in [_namesByValue] is decided by the names
    declared with the value: no entry when there is none, the string when
    there is one, and the tuple of them in declaration order when there
    are two or more.  So a tuple entry never has fewer than two names. *)
Theorem entry_shape `{Platform} id name ct start vs :
  ∃ nbv, _namesByValue (enum id name ct start vs) = Some nbv
    ∧ (∀ x, nbv !! x = match aliases start vs x with
                       | [] => None
                       | [n] => Some (NStr n)
                       | t => Some (NTuple t)
                       end)
    ∧ (∀ x t, nbv !! x = Some (NTuple t) → (2 ≤ length t)%nat).
Proof.
  eexists. split; [apply enum_namesByValue|]. split.
  - apply run_loop_entry_of.
  - apply run_loop_tuple.
Qed.

(** X3.  When no name is declared twice the two tables are inverse to
    each other: a name reads a value in [_valuesByName] exactly when it
    is among the names that [_namesByValue] keeps under that value. *)
Theorem tables_inverse `{Platform} id name ct start vs :
  NoDup (member_name <$> vs) →
  ∃ nbv vbn,
    _namesByValue (enum id name ct start vs) = Some nbv
    ∧ _valuesByName (enum id name ct start vs) = Some vbn
    ∧ ∀ n x, vbn !! n = Some x ↔ n ∈ names_of nbv x.
Proof.
  intros Hnd. eexists _, _. split; [apply enum_namesByValue|].
  split; [apply enum_valuesByName|]. intros n x.
  rewrite run_loop_names_of, elem_of_aliases, run_loop_valuesByName. split.
  - intros [Hin|Hin]%write_pairs_lookup; [done|by rewrite lookup_empty in Hin].
  - intros (l1 & l2 & Hl)%list_elem_of_split. rewrite Hl.
    apply write_pairs_last.
    rewrite <- assigned_fst with (counter := default 0 start) in Hnd.
    rewrite Hl, fmap_app, fmap_cons in Hnd. cbn in Hnd.
    apply NoDup_app in Hnd as (_ & _ & Hnd). by apply NoDup_cons in Hnd as [? _].
Qed.

Lemma tables_inverse_witness :
  ∃ nbv vbn,
    _namesByValue MH_FILETYPE = Some nbv
    ∧ _valuesByName MH_FILETYPE = Some vbn
    ∧ ∀ n x, vbn !! n = Some x ↔ n ∈ names_of nbv x.
Proof.
  apply (@tables_inverse LP64 1 "MH_FILETYPE" (Some c_uint32) None
           [MStr "MH_UNKNOWN"; MTuple "MH_EXECUTE" [2]; MStr "MH_FVMLIB"]).
  cbn. apply (bool_decide_unpack (NoDup _)). by vm_compute.
Defined.

(** X4.  Declaring more members after a list changes nothing that the
    list recorded: under every value the names of the list stay first, in
    their order, and a name that the added members do not declare keeps
    its value. *)
Theorem extension_keeps `{Platform} id name ct start vs ws :
  ∃ nbv vbn nbv' vbn',
    _namesByValue (enum id name ct start vs) = Some nbv
    ∧ _valuesByName (enum id name ct start vs) = Some vbn
    ∧ _namesByValue (enum id name ct start (vs ++ ws)) = Some nbv'
    ∧ _valuesByName (enum id name ct start (vs ++ ws)) = Some vbn'
    ∧ (∀ x, names_of nbv x `prefix_of` names_of nbv' x)
    ∧ (∀ n, n ∉ member_name <$> ws → vbn' !! n = vbn !! n).
Proof.
  eexists _, _, _, _. split_and!; [apply enum_namesByValue
    |apply enum_valuesByName|apply enum_namesByValue|apply enum_valuesByName| |].
  - intros x. rewrite !run_loop_names_of. unfold aliases.
    destruct (assigned_app (default 0 start) vs ws) as [c' ->].
    rewrite filter_app, fmap_app. by eexists.
  - intros n Hn. rewrite !run_loop_valuesByName.
    destruct (assigned_app (default 0 start) vs ws) as [c' ->].
    unfold write_pairs. rewrite foldl_app.
    apply write_pairs_notin. by rewrite assigned_fst.
Qed.

(** ** Further properties of iteration *)

Lemma bind_ext_in {A B} (f g : A → list B) (l : list A) :
  (∀ x, x ∈ l → f x = g x) → l ≫= f = l ≫= g.
Proof.
  induction l as [|x l IH]; intros Hfg; cbn; [done|].
  rewrite Hfg by left. f_equal. apply IH. intros y Hy. apply Hfg. by right.
Qed.

Lemma pairs_of_filter (l : list (string * Z)) (x : Z) :
  (λ n, (n, x)) <$> (filter (λ p, p.2 = x) l).*1 = filter (λ p, p.2 = x) l.
Proof.
  induction l as [|[n y] l IH]; [done|].
  destruct (decide (y = x)) as [->|Hne].
  - rewrite filter_cons_True by done. rewrite !fmap_cons. cbn. by rewrite IH.
  - by rewrite filter_cons_False by done.
Qed.

(** Grouping a list of pairs by value, over distinct values that cover
    the list, permutes it. *)
Lemma group_by_value (ks : list Z) (l : list (string * Z)) :
  NoDup ks → (∀ p, p ∈ l → p.2 ∈ ks) →
  ks ≫= (λ x, filter (λ p, p.2 = x) l) ≡ₚ l.
Proof.
  intros Hnd. revert l. induction Hnd as [|k ks Hk Hnd IH]; intros l Hl.
  - destruct l as [|p l]; [done|]. specialize (Hl p (list_elem_of_here _ _)).
    by apply not_elem_of_nil in Hl.
  - cbn. etrans; [|apply (filter_app_complement (λ p, p.2 = k) l)].
    apply Permutation_app; [done|].
    rewrite <- (IH (filter (λ p, ¬ p.2 = k) l)).
    + apply reflexive_eq, bind_ext_in. intros x Hx.
      symmetry. etrans; [apply list_filter_filter|].
      apply list_filter_iff. intros p.
      split; [by intros [? _]|]. intros Hpx. split; [done|]. intros Hpk.
      apply Hk. by rewrite <- Hpk, Hpx.
    + intros p [Hp Hin]%list_elem_of_filter.
      apply Hl in Hin. apply elem_of_cons in Hin as [?|?]; done.
Qed.

(** What iteration yields, as a grouping of the declarations. *)
Lemma iter_grouping `{Platform} id name ct start vs :
  ∃ ks, __iter__ (enum id name ct start vs)
        = Ok (ks ≫= (λ x, filter (λ p, p.2 = x) (assigned (default 0 start) vs)))
    ∧ NoDup ks ∧ StronglySorted Z.le ks
    ∧ ∀ x, x ∈ ks ↔ x ∈ (assigned (default 0 start) vs).*2.
Proof.
  set (d := namesByValue (run_loop start vs)).
  exists (sorted_keys d). split_and!.
  - unfold __iter__. rewrite enum_namesByValue. cbn. f_equal.
    apply bind_ext_in. intros x _. rewrite yield_names_eq. unfold d.
    rewrite run_loop_names_of. apply pairs_of_filter.
  - apply NoDup_sorted_keys.
  - apply sorted_keys_le.
  - intros x. rewrite elem_of_sorted_keys. split.
    + intros [val Hval].
      destruct (decide (x ∈ (assigned (default 0 start) vs).*2)) as [|Hn]; [done|].
      apply run_loop_undeclared in Hn. unfold d in Hval. congruence.
    + intros (val & Hval & _)%run_loop_declared. by exists val.
Qed.

Lemma iter_permutation `{Platform} id name ct start vs :
  ∃ pairs, __iter__ (enum id name ct start vs) = Ok pairs
    ∧ pairs ≡ₚ assigned (default 0 start) vs
    ∧ StronglySorted Z.le pairs.*2.
Proof.
  destruct (iter_grouping id name ct start vs) as (ks & Hiter & Hnd & Hs & Hks).
  eexists. split; [done|]. split.
  - apply group_by_value; [done|]. intros p Hp. apply Hks.
    apply list_elem_of_fmap. by exists p.
  - assert (Heq : ks ≫= (λ x, filter (λ p, p.2 = x) (assigned (default 0 start) vs))
                  = ks ≫= (λ x, (λ n, (n, x)) <$> aliases start vs x)).
    { apply bind_ext_in. intros x _. symmetry. apply pairs_of_filter. }
    rewrite Heq. by apply bind_sorted.
Qed.

(** Pairs with distinct values are determined by their order of values. *)
Lemma perm_same_values (l1 l2 : list (string * Z)) :
  l1 ≡ₚ l2 → l1.*2 = l2.*2 → NoDup l2.*2 → l1 = l2.
Proof.
  revert l2. induction l1 as [|[a x] l1 IH]; intros [|[b y] l2] Hp Hv Hnd;
    try done.
  cbn in Hv. injection Hv as -> Hv. cbn in Hnd.
  apply NoDup_cons in Hnd as [Hy Hnd].
  assert ((a, y) ∈ (b, y) :: l2) as [[= ->]|Hin]%elem_of_cons.
  { rewrite <- Hp. by left. }
  - f_equal. apply IH; [|done..]. by apply Permutation_cons_inv in Hp.
  - exfalso. apply Hy. apply list_elem_of_fmap. by exists (a, y).
Qed.

Lemma iter_ascending `{Platform} id name ct start vs :
  StronglySorted Z.lt (assigned (default 0 start) vs).*2 →
  __iter__ (enum id name ct start vs) = Ok (assigned (default 0 start) vs).
Proof.
  intros Hs. destruct (iter_permutation id name ct start vs)
    as (pairs & -> & Hp & Hle).
  f_equal. set (l := assigned (default 0 start) vs) in *.
  assert (HsL : StronglySorted Z.le l.*2).
  { clear -Hs. induction Hs as [|x xs _ IH Hx]; constructor; [done|].
    eapply Forall_impl; [done|]. cbn. lia. }
  assert (Hnd : NoDup l.*2).
  { clear -Hs. induction Hs as [|x xs _ IH Hx]; constructor; [|done].
    rewrite Forall_forall in Hx. intros Hin%Hx. lia. }
  apply perm_same_values; [done| |done].
  apply (StronglySorted_unique Z.le); [done..|]. by apply fmap_Permutation.
Qed.

Lemma filter_none (l : list (string * Z)) (x : Z) :
  (∀ p, p ∈ l → p.2 ≠ x) → filter (λ p, p.2 = x) l = [].
Proof.
  induction l as [|p l IH]; intros Hl; [done|].
  rewrite filter_cons_False by (apply Hl; left).
  apply IH. intros q Hq. apply Hl. by right.
Qed.

(** Among pairs with distinct values, a value has the one name of its
    pair. *)
Lemma filter_unique_value (l : list (string * Z)) n x :
  NoDup l.*2 → (n, x) ∈ l → (filter (λ p, p.2 = x) l).*1 = [n].
Proof.
  induction l as [|[m y] l IH]; intros Hnd Hin.
  - by apply not_elem_of_nil in Hin.
  - rewrite fmap_cons in Hnd. apply NoDup_cons in Hnd as [Hy Hnd].
    apply elem_of_cons in Hin as [[= <- <-]|Hin].
    + rewrite filter_cons_True by done. rewrite fmap_cons. cbn. f_equal.
      rewrite filter_none; [done|]. intros [m' y] Hm Hy'. cbn in Hy'. subst.
      apply Hy. apply list_elem_of_fmap. by exists (m', x).
    + assert (y ≠ x).
      { intros ->. apply Hy. apply list_elem_of_fmap. by exists (n, x). }
      rewrite filter_cons_False by done. by apply IH.
Qed.

Lemma assigned_bare counter ns :
  assigned counter (MStr <$> ns) = imap (λ i n, (n, counter + Z.of_nat i)) ns.
Proof.
  revert counter. induction ns as [|n ns IH]; intros counter; cbn; [done|].
  rewrite Z.add_0_r, IH. f_equal. apply imap_ext. intros i m _. cbn.
  f_equal. lia.
Qed.

Lemma assigned_bare_sorted counter ns :
  Forall (λ x, counter ≤ x) (assigned counter (MStr <$> ns)).*2
  ∧ StronglySorted Z.lt (assigned counter (MStr <$> ns)).*2.
Proof.
  revert counter. induction ns as [|n ns IH]; intros counter; cbn.
  { split; constructor. }
  destruct (IH (counter + 1)) as [Hge Hs]. split.
  - constructor; [lia|]. eapply Forall_impl; [done|]. cbn. lia.
  - constructor; [done|]. eapply Forall_impl; [done|]. cbn. lia.
Qed.

(** X5.  Iteration yields every declaration once: the pairs yielded are a
    permutation of the (name, value) pairs that the declarations assign,
    a name declared twice being yielded twice, and there are as many of
    them as [_values_] has entries. *)
Theorem iter_yields_declarations `{Platform} id name ct start vs :
  ∃ pairs, __iter__ (enum id name ct start vs) = Ok pairs
    ∧ pairs ≡ₚ assigned (default 0 start) vs
    ∧ length pairs = length vs.
Proof.
  destruct (iter_permutation id name ct start vs) as (pairs & Hiter & Hp & _).
  exists pairs. split_and!; [done..|].
  rewrite Hp, <- (length_fmap fst), assigned_fst. apply length_fmap.
Qed.

(** X6.  When the values assigned increase strictly along [_values_],
    iteration yields the members in the order of their declaration. *)
Theorem iter_declaration_order `{Platform} id name ct start vs :
  StronglySorted Z.lt (assigned (default 0 start) vs).*2 →
  __iter__ (enum id name ct start vs) = Ok (assigned (default 0 start) vs).
Proof. apply iter_ascending. Qed.

Lemma iter_declaration_order_witness :
  __iter__ MH_FILETYPE = Ok [("MH_UNKNOWN", 0); ("MH_EXECUTE", 2); ("MH_FVMLIB", 3)].
Proof.
  apply (@iter_declaration_order LP64 1 "MH_FILETYPE" (Some c_uint32) None
           [MStr "MH_UNKNOWN"; MTuple "MH_EXECUTE" [2]; MStr "MH_FVMLIB"]).
  cbn. repeat constructor; lia.
Defined.

(** X7.  A list of bare names is numbered like a C enumeration: the
    name at position [i] is given the start value plus [i], iteration
    yields the names in the order of the list with these values, and when
    the names are distinct each one reads its value. *)
Theorem bare_names_numbering `{Platform} id name ct start ns :
  let E := enum id name ct start (MStr <$> ns) in
  let numbered := imap (λ i n, (n, default 0 start + Z.of_nat i)) ns in
  __iter__ E = Ok numbered
  ∧ (∀ i n, ns !! i = Some n →
       __getitem__ E (PInt (default 0 start + Z.of_nat i)) = Ok (Some (NStr n)))
  ∧ (NoDup ns →
     ∀ i n, ns !! i = Some n → String.prefix "_" n = false →
       EnumerationType.__getattr__ E n = Ok (Some (default 0 start + Z.of_nat i))).
Proof.
  intros E numbered.
  assert (Hnum : assigned (default 0 start) (MStr <$> ns) = numbered)
    by apply assigned_bare.
  assert (Hin : ∀ i n, ns !! i = Some n →
                  (n, default 0 start + Z.of_nat i) ∈ numbered).
  { intros i n Hi. apply list_elem_of_lookup. exists i.
    unfold numbered. by rewrite list_lookup_imap, Hi. }
  destruct (assigned_bare_sorted (default 0 start) ns) as [_ Hs].
  split_and!.
  - unfold E. rewrite iter_ascending by done. by rewrite Hnum.
  - intros i n Hi. unfold __getitem__, E. rewrite enum_namesByValue. cbn.
    rewrite run_loop_entry_of.
    assert (Hal : aliases start (MStr <$> ns) (default 0 start + Z.of_nat i) = [n]).
    { unfold aliases. rewrite Hnum. apply filter_unique_value; [|by apply Hin].
      rewrite <- Hnum. clear -Hs.
      induction Hs as [|x xs _ IH Hx]; constructor; [|done].
      rewrite Forall_forall in Hx. intros Hin%Hx. lia. }
    by rewrite Hal.
  - intros Hnd i n Hi Hp. unfold EnumerationType.__getattr__, E.
    rewrite Hp, enum_valuesByName. cbn.
    rewrite run_loop_valuesByName, Hnum.
    apply Hin in Hi. apply list_elem_of_split in Hi as (l1 & l2 & Hl).
    rewrite Hl, write_pairs_last; [done|].
    assert (Hfst : numbered.*1 = ns).
    { rewrite <- Hnum, assigned_fst, <- list_fmap_compose.
      apply list_fmap_id. }
    rewrite <- Hfst, Hl, fmap_app, fmap_cons in Hnd. cbn in Hnd.
    apply NoDup_app in Hnd as (_ & _ & Hnd). by apply NoDup_cons in Hnd as [? _].
Qed.

(** ** Further properties of the lookups *)

Lemma declared_iff_aliases start vs x :
  x ∈ (assigned (default 0 start) vs).*2 ↔ aliases start vs x ≠ [].
Proof.
  split; [apply aliases_declared|]. intros Hne.
  destruct (decide (x ∈ (assigned (default 0 start) vs).*2)) as [|Hn]; [done|].
  by apply aliases_undeclared in Hn.
Qed.

(** X8.  The operator [in] on a class with members: an integer is in
    the class exactly when it is a declared value, unless the only name
    declared with it is the empty string, whose truth value is false; no
    string is in the class.  So when no member has the empty name, [in]
    tests for a declared value. *)
Theorem operator_in_declared `{Platform} id name ct start vs :
  let E := enum id name ct start vs in
  let declared := assigned (default 0 start) vs in
  (∀ x, operator_in (PInt x) E
        = Ok (bool_decide (x ∈ declared.*2 ∧ aliases start vs x ≠ [""])))
  ∧ (∀ s, operator_in (PStr s) E = Ok false)
  ∧ ("" ∉ member_name <$> vs →
     ∀ x, operator_in (PInt x) E = Ok (bool_decide (x ∈ declared.*2))).
Proof.
  intros E declared.
  assert (Hint : ∀ x, operator_in (PInt x) E
            = Ok (bool_decide (x ∈ declared.*2 ∧ aliases start vs x ≠ [""]))).
  { intros x. unfold operator_in, __contains__, E. rewrite enum_namesByValue.
    cbn. rewrite run_loop_entry_of.
    pose proof (declared_iff_aliases start vs x) as Hd. fold declared in Hd.
    destruct (aliases start vs x) as [|n [|m t]] eqn:Hal; cbn; f_equal.
    - rewrite bool_decide_eq_false_2; [done|]. intros [Hx _]. by apply Hd in Hx.
    - destruct (String.eqb_spec n "") as [->|Hn]; cbn.
      + rewrite bool_decide_eq_false_2; [done|]. by intros [_ ?].
      + rewrite bool_decide_eq_true_2; [done|]. split; [by apply Hd|congruence].
    - rewrite bool_decide_eq_true_2; [done|]. split; [by apply Hd|done]. }
  split_and!; [done| |].
  - intros s. unfold operator_in, __contains__, E. rewrite enum_namesByValue.
    cbn. by destruct (String.prefix "_" s).
  - intros Hempty x. rewrite Hint. f_equal. apply bool_decide_ext.
    split; [by intros [? _]|]. intros Hx. split; [done|]. intros Hal.
    apply Hempty. rewrite <- (assigned_fst (default 0 start)).
    apply list_elem_of_fmap. exists ("", x). split; [done|].
    apply elem_of_aliases. rewrite Hal. by left.
Qed.

(** X9.  From a name to its value and back: when the attribute lookup
    of a name gives a value that the storage of the class can represent,
    the instance made from that value has a [name], and the name looked
    up is it, or is one of the names of its tuple. *)
Theorem name_value_name `{Platform} id name ct start vs n x :
  let E := enum id name ct start vs in
  EnumerationType.__getattr__ E n = Ok (Some x) →
  representable (base_ctype E) x →
  ∃ val, Enumeration.__getattr__ (Enumeration.new E x) "name" = Ok val
         ∧ n ∈ names_list val.
Proof.
  intros E Hattr Hrep.
  assert (Hn : valuesByName (run_loop start vs) !! n = Some x).
  { revert Hattr. unfold EnumerationType.__getattr__, E.
    rewrite enum_valuesByName. destruct (negb _ && _); [|done]. cbn.
    destruct (_ !! n) as [y|]; [|done]. by intros [= ->]. }
  rewrite run_loop_valuesByName in Hn.
  apply write_pairs_lookup in Hn as [Hn|Hn]; [|by rewrite lookup_empty in Hn].
  destruct (run_loop_declared start vs x) as (val & Hval & Hl).
  { apply list_elem_of_fmap. by exists (n, x). }
  exists val. split.
  - unfold Enumeration.__getattr__. cbn.
    assert (Hv : Enumeration.value (Enumeration.new E x) = x)
      by by apply unpack_pack_representable.
    unfold E in Hv. cbn in Hv. rewrite Hv. by rewrite Hval.
  - rewrite Hl. by apply elem_of_aliases.
Qed.

Lemma name_value_name_witness :
  ∃ val, @Enumeration.__getattr__ LP64
           (@Enumeration.new LP64 MH_FILETYPE 3) "name" = Ok val
         ∧ "MH_FVMLIB" ∈ names_list val.
Proof.
  apply (@name_value_name LP64 1 "MH_FILETYPE" (Some c_uint32) None
           [MStr "MH_UNKNOWN"; MTuple "MH_EXECUTE" [2]; MStr "MH_FVMLIB"]
           "MH_FVMLIB" 3).
  - by vm_compute.
  - vm_compute. split; [by intros [=]|done].
Defined.

(** X10.  [from_param] is idempotent and touches no instance: what it
    returns, given again, comes back as it is with nothing allocated, and
    every instance that was alive is still there with its class and its
    buffer. *)
Theorem from_param_idempotent `{Platform} (T : EnumClass) p
    (h h' : gmap nat Enumeration.instance) l :
  Enumeration.from_param T p h = Ok (l, h') →
  Enumeration.from_param T (Enumeration.Ref l) h' = Ok (l, h')
  ∧ (∀ l0 o, h !! l0 = Some o → h' !! l0 = Some o)
  ∧ (∃ o, h' !! l = Some o ∧ cls_id (Enumeration.__class__ o) = cls_id T).
Proof.
  unfold Enumeration.from_param at 1. destruct p as [l1|v].
  - destruct (h !! l1) as [o|] eqn:Hl; [|done].
    destruct (decide _) as [Hc|]; [|done]. intros [= -> ->].
    split_and!; [|done|by exists o].
    unfold Enumeration.from_param. by rewrite Hl, decide_True.
  - intros [= <- <-].
    assert (Hfresh : h !! fresh (dom h) = None)
      by apply not_elem_of_dom, is_fresh.
    split_and!.
    + unfold Enumeration.from_param. rewrite lookup_insert_eq.
      by rewrite decide_True.
    + intros l0 o Hl0. rewrite lookup_insert_ne; [done|]. congruence.
    + eexists. by rewrite lookup_insert_eq.
Qed.

Lemma from_param_idempotent_witness :
  @Enumeration.from_param LP64 MH_FILETYPE (Enumeration.Ref 0)
    {[0%nat := @Enumeration.new LP64 MH_FILETYPE 5]}
  = Ok (0%nat, {[0%nat := @Enumeration.new LP64 MH_FILETYPE 5]})
  ∧ (∀ l0 o, (∅ : gmap nat Enumeration.instance) !! l0 = Some o →
       ({[0%nat := @Enumeration.new LP64 MH_FILETYPE 5]}
          : gmap nat Enumeration.instance) !! l0 = Some o)
  ∧ (∃ o, ({[0%nat := @Enumeration.new LP64 MH_FILETYPE 5]}
             : gmap nat Enumeration.instance) !! 0%nat = Some o
          ∧ cls_id (Enumeration.__class__ o) = cls_id MH_FILETYPE).
Proof.
  apply (@from_param_idempotent LP64 MH_FILETYPE (Enumeration.Int 5) ∅).
  by vm_compute.
Defined.

(** X11.  A class whose body gives no [_values_] has no tables.  Its
    attribute lookup returns [None] for every name, and its membership
    lookup returns [None] for a string with the reserved prefix; every
    other membership lookup, every indexing and the [name] and [repr] of
    every instance raise [TypeError], the missing table reading as
    [None]; iteration raises [AttributeError]. *)
Theorem class_without_values `{Platform} id name ct start :
  let E := class id name {| d_ctype := ct; d_start_value := start;
                            d_values := None |} in
  _namesByValue E = None ∧ _valuesByName E = None
  ∧ (∀ attr, EnumerationType.__getattr__ E attr = Ok None)
  ∧ __iter__ E = Raise AttributeError
  ∧ (∀ value, __getitem__ E value = Raise TypeError)
  ∧ (∀ value, __contains__ E value
              = if is_private value then Ok None else Raise TypeError)
  ∧ (∀ buf,
       let self := {| Enumeration.__class__ := E; Enumeration.buffer := buf |} in
       Enumeration.__getattr__ self "name" = Raise TypeError
       ∧ Enumeration.__repr__ self = Raise TypeError).
Proof.
  intros E. split_and!; try done.
  - intros attr. unfold EnumerationType.__getattr__. cbn.
    by rewrite andb_false_r.
  - intros value. unfold __contains__. by destruct (is_private value).
Qed.
